(** * Relay [on_device] annotations: a shallow embedding of
      src/relay/op/memory/on_device.cc and the properties of its helpers,
      followed by the type relation of src/relay/op/contrib/ethosu/identity.cc.

    The C++ helpers only ever inspect the top node of an expression, so the
    Relay expression grammar is embedded as an ordinary inductive type;
    [ICHECK] failures are fatal and are threaded through an error monad. *)

From Stdlib Require Import ZArith Bool.
From stdpp Require Import base decidable option list strings gmap.

(** ** Fatal failures and the error monad *)

(** One constructor per [ICHECK] of the file, named after the message the
    source streams into the failed check. *)
Inductive ICheckFailure : Type :=
  | OnDeviceUnconstrainedScope
      (* OnDevice: (!constrain_result && !constrain_body) || !IsFullyUnconstrained *)
  | ResultBodyDifferentSEScopes
      (* "Cannot constrain result and body of nested on_device calls to
         different SEScopes" *)
  | IntermediateDifferentSEScopes
      (* "Cannot constrain intermediate result of nested on_device calls to
         different SEScopes" *)
  | OnDeviceExpectsOneArgument   (* "on_device expects one argument" *)
  | OnDeviceRequiresAttributes   (* "on_device requires attributes" *)
  | OnDeviceRequiresOnDeviceAttrs (* "on_device requires OnDeviceAttrs" *)
  | ParamIndexOutOfRange
      (* "param index i out of range for function of arity n" *)
  | AnnotationArityMismatch
      (* "annotation parameters do not match function arity" *)
  | DowncastFailed              (* an attribute of another type under the key *)
  | ArrayIndexOutOfBounds.      (* Array::operator[] past the end *)

Inductive result (A : Type) : Type :=
  | OK (a : A)
  | Fatal (e : ICheckFailure).
Arguments OK {A} a.
Arguments Fatal {A} e.

Global Instance result_ret : MRet result := λ A a, OK a.
Global Instance result_bind : MBind result := λ A B k m,
  match m with
  | OK a => k a
  | Fatal e => Fatal e
  end.

(** [ICHECK(cond) << msg]: continue when [cond] holds, abort otherwise. *)
Definition ICHECK (cond : bool) (msg : ICheckFailure) : result unit :=
  if cond then OK tt else Fatal msg.

(** The two failures that report contradicting placements. *)
Definition placement_contradiction {A : Type} (r : result A) : Prop :=
  r = Fatal ResultBodyDifferentSEScopes ∨ r = Fatal IntermediateDifferentSEScopes.

(** ** Placement scopes *)

(** Modelled from the spec: [SEScope] is declared in the target headers, which
    are not under src/.  A scope is a device kind, a device index and an
    optional memory-scope tag, plus the "fully unconstrained" sentinel, which
    equals only itself; equality is structural. *)
Inductive SEScope : Type :=
  | FullyUnconstrained
  | ConcreteSEScope (device_kind : string) (device_index : Z)
                    (memory_scope : option string).

Global Instance SEScope_eq_dec : EqDecision SEScope.
Proof. solve_decision. Defined.

Definition IsFullyUnconstrained (se_scope : SEScope) : bool :=
  match se_scope with
  | FullyUnconstrained => true
  | ConcreteSEScope _ _ _ => false
  end.

(** ** Expressions *)

Record SpanNode : Type := MkSpan { source_name : string; line : Z; column : Z }.
Definition Span : Type := option SpanNode.

Inductive RelayType : Type :=
  | TensorType (shape : list Z) (dtype : string)
  | TypeVar (type_name : string).

(** Call attributes: undefined, the [OnDeviceAttrs] node, or the attributes
    node of some other operator (known by its type key). *)
Inductive Attrs : Type :=
  | AttrsUndefined
  | OnDeviceAttrs (se_scope : SEScope) (constrain_result constrain_body : bool)
  | OtherAttrs (type_key : string).

(** Values stored in a function's attribute dictionary. *)
Inductive ObjectRef : Type :=
  | SEScopeRef (se_scope : SEScope)
  | SEScopeArrayRef (se_scopes : list SEScope)
  | OtherRef (repr : string).

#[warnings="-register-all"] Inductive Expr : Type :=
  | ConstantExpr (data : Z) (span : Span)
  | TupleExpr (fields : list Expr) (span : Span)
  | VarExpr (name_hint : string) (span : Span)
  | GlobalVarExpr (name_hint : string) (span : Span)
  | FunctionExpr (function_node : FunctionNode)
  | CallExpr (op : Expr) (args : list Expr) (attrs : Attrs)
             (type_args : list RelayType) (span : Span)
  | LetExpr (var value let_body : Expr) (span : Span)
  | IfExpr (cond true_branch false_branch : Expr) (span : Span)
  | OpExpr (name : string)
  | TupleGetItemExpr (tuple : Expr) (index : Z) (span : Span)
  | ConstructorExpr (name_hint : string) (span : Span)
with FunctionNode : Type :=
  | MkFunction (fn_params : list Expr) (fn_body : Expr)
               (fn_attrs : gmap string ObjectRef) (fn_span : Span).

Definition params (f : FunctionNode) : list Expr :=
  match f with MkFunction ps _ _ _ => ps end.
Definition fn_attrs (f : FunctionNode) : gmap string ObjectRef :=
  match f with MkFunction _ _ a _ => a end.

(** [expr->span] *)
Definition span_of (e : Expr) : Span :=
  match e with
  | ConstantExpr _ s | TupleExpr _ s | VarExpr _ s | GlobalVarExpr _ s
  | CallExpr _ _ _ _ s | LetExpr _ _ _ s | IfExpr _ _ _ s
  | TupleGetItemExpr _ _ s | ConstructorExpr _ s => s
  | FunctionExpr (MkFunction _ _ _ s) => s
  | OpExpr _ => None
  end.

(** [body->IsInstance<...Node>()] *)
Definition IsOpNode (e : Expr) : bool :=
  match e with OpExpr _ => true | _ => false end.
Definition IsConstructorNode (e : Expr) : bool :=
  match e with ConstructorExpr _ _ => true | _ => false end.
Definition IsGlobalVarNode (e : Expr) : bool :=
  match e with GlobalVarExpr _ _ => true | _ => false end.
Definition IsVarNode (e : Expr) : bool :=
  match e with VarExpr _ _ => true | _ => false end.
Definition IsFunctionNode (e : Expr) : bool :=
  match e with FunctionExpr _ => true | _ => false end.

(** ** The [on_device] operator *)

(** [OnDeviceOp()]: the operator registered under the name "on_device". *)
Definition OnDeviceOp : Expr := OpExpr "on_device".

(** [call_node->op == OnDeviceOp()]: operators are unique per registered
    name, so reference equality with the registered operator is a test on the
    name. *)
Definition is_OnDeviceOp (op : Expr) : bool :=
  match op with
  | OpExpr name => bool_decide (name = "on_device")
  | _ => false
  end.

(** [Call OnDevice(Expr body, SEScope se_scope, bool constrain_result,
                   bool constrain_body)] *)
Definition OnDevice (body : Expr) (se_scope : SEScope)
    (constrain_result constrain_body : bool) : result Expr :=
  ICHECK ((negb constrain_result && negb constrain_body)
          || negb (IsFullyUnconstrained se_scope))
         OnDeviceUnconstrainedScope ;;
  let attrs :=
    OnDeviceAttrs
      (if constrain_result || constrain_body then se_scope
       else FullyUnconstrained)
      constrain_result constrain_body in
  let span := span_of body in
  OK (CallExpr OnDeviceOp [body] attrs [] span).

(** [struct OnDeviceProps]: [body] is undefined when the expression is not an
    [on_device] call. *)
Record OnDeviceProps : Type := MkProps {
  body : option Expr;
  se_scope : SEScope;
  constrain_result : bool;
  constrain_body : bool
}.

Definition NoProps : OnDeviceProps := MkProps None FullyUnconstrained false false.

(** [OnDeviceProps GetOnDeviceProps(const CallNode* call_node)] *)
Definition GetOnDeviceProps_call (op : Expr) (args : list Expr) (attrs : Attrs)
    : result OnDeviceProps :=
  if is_OnDeviceOp op then
    ICHECK (bool_decide (length args = 1%nat)) OnDeviceExpectsOneArgument ;;
    ICHECK (match attrs with AttrsUndefined => false | _ => true end)
           OnDeviceRequiresAttributes ;;
    match attrs with
    | OnDeviceAttrs s cr cb => OK (MkProps (args !! 0%nat) s cr cb)
    | _ => Fatal OnDeviceRequiresOnDeviceAttrs
    end
  else OK NoProps.

(** [OnDeviceProps GetOnDeviceProps(const Expr& expr)] *)
Definition GetOnDeviceProps (expr : Expr) : result OnDeviceProps :=
  match expr with
  | CallExpr op args attrs _ _ => GetOnDeviceProps_call op args attrs
  | _ => OK NoProps
  end.

(** [Expr MaybeOnDevice(Expr body, SEScope se_scope, bool constrain_result,
                        bool constrain_body)].  The fields of [props] are
    bound as [props_body], [props_se_scope], ... since the parameters carry
    the same names as the fields. *)
Definition MaybeOnDevice (body : Expr) (se_scope : SEScope)
    (constrain_result constrain_body : bool) : result Expr :=
  if IsFullyUnconstrained se_scope then OK body
  else if IsOpNode body || IsConstructorNode body then OK body
  else if IsGlobalVarNode body || IsVarNode body then OK body
  else if IsFunctionNode body then OK body
  else
    props ← GetOnDeviceProps body ;
    let 'MkProps props_body props_se_scope props_constrain_result
                 props_constrain_body := props in
    match props_body with
    | Some props_body =>
        let inner := props_se_scope in
        let outer := se_scope in
        let constrain_outer := constrain_result in
        let constrain_inner := props_constrain_body in
        ICHECK (negb (constrain_outer && constrain_inner)
                || bool_decide (inner = outer))
               ResultBodyDifferentSEScopes ;;
        let constrain_middle_via_outer := constrain_body in
        let constrain_middle_via_inner := props_constrain_result in
        ICHECK (negb (constrain_middle_via_outer && constrain_middle_via_inner)
                || bool_decide (inner = outer))
               IntermediateDifferentSEScopes ;;
        OnDevice props_body
                 (if constrain_inner || constrain_outer then outer else inner)
                 constrain_outer constrain_inner
    | None => OnDevice body se_scope constrain_result constrain_body
    end.

(** ** Function placement attributes *)

(** Modelled from the spec: the attribute keys [tvm::attr::kParamSEScopes] and
    [tvm::attr::kResultSEScope] are constants of the attribute header, which
    is not under src/; the source names the second one in a comment of
    [MaybeOnDevice] ("result_se_scope"). *)
Definition kParamSEScopes : string := "param_se_scopes".
Definition kResultSEScope : string := "result_se_scope".

(** Modelled from the spec: [WithAttrs] is declared with the function node,
    not under src/.  It returns a copy of the function whose attribute
    dictionary holds the given entries, on top of the entries it already had
    (a function without attributes has the empty dictionary); the input is
    not mutated. *)
Definition WithAttrs (function : FunctionNode) (attrs : gmap string ObjectRef)
    : FunctionNode :=
  match function with
  | MkFunction ps b old sp => MkFunction ps b (attrs ∪ old) sp
  end.

(** Modelled from the spec: [GetAttr<T>] is declared with the function node,
    not under src/.  It looks the key up and casts the entry to the type asked
    for; an absent key gives the empty optional. *)
Definition GetAttr_SEScope (function_node : FunctionNode) (key : string)
    : result (option SEScope) :=
  match fn_attrs function_node !! key with
  | None => OK None
  | Some (SEScopeRef s) => OK (Some s)
  | Some _ => Fatal DowncastFailed
  end.

Definition GetAttr_SEScopeArray (function_node : FunctionNode) (key : string)
    : result (option (list SEScope)) :=
  match fn_attrs function_node !! key with
  | None => OK None
  | Some (SEScopeArrayRef l) => OK (Some l)
  | Some _ => Fatal DowncastFailed
  end.

(** [Function FunctionOnDevice(Function function,
      Array<SEScope> param_se_scopes, SEScope result_se_scope)] *)
Definition FunctionOnDevice (function : FunctionNode)
    (param_se_scopes : list SEScope) (result_se_scope : SEScope)
    : FunctionNode :=
  WithAttrs function
    (<[kResultSEScope := SEScopeRef result_se_scope]>
       (<[kParamSEScopes := SEScopeArrayRef param_se_scopes]> ∅)).

(** [Function MaybeFunctionOnDevice(...)] *)
Definition MaybeFunctionOnDevice (function : FunctionNode)
    (param_se_scopes : list SEScope) (result_se_scope : SEScope)
    : FunctionNode :=
  if forallb IsFullyUnconstrained param_se_scopes
     && IsFullyUnconstrained result_se_scope
  then function
  else FunctionOnDevice function param_se_scopes result_se_scope.

(** [SEScope GetFunctionResultSEScope(const FunctionNode* function_node)] *)
Definition GetFunctionResultSEScope (function_node : FunctionNode)
    : result SEScope :=
  opt_se_scope ← GetAttr_SEScope function_node kResultSEScope ;
  OK (default FullyUnconstrained opt_se_scope).

(** [SEScope GetFunctionParamSEScope(const FunctionNode* function_node,
                                     size_t i)] *)
Definition GetFunctionParamSEScope (function_node : FunctionNode) (i : nat)
    : result SEScope :=
  ICHECK (bool_decide (i < length (params function_node))%nat)
         ParamIndexOutOfRange ;;
  opt_array ← GetAttr_SEScopeArray function_node kParamSEScopes ;
  match opt_array with
  | None => OK FullyUnconstrained
  | Some array =>
      ICHECK (bool_decide (length array = length (params function_node)))
             AnnotationArityMismatch ;;
      match array !! i with
      | Some se_scope => OK se_scope
      | None => Fatal ArrayIndexOutOfBounds
      end
  end.

(** ** Vocabulary of the statements *)

(** The node kinds [MaybeOnDevice] never wraps. *)
Definition device_polymorphic (e : Expr) : bool :=
  IsOpNode e || IsConstructorNode e || IsGlobalVarNode e || IsVarNode e
  || IsFunctionNode e.

(** [e] decomposes as an annotation with the four given fields. *)
Definition annotation (e b : Expr) (s : SEScope) (cr cb : bool) : Prop :=
  GetOnDeviceProps e = OK (MkProps (Some b) s cr cb).

(** [x] is an expression [MaybeOnDevice] wraps afresh: not device polymorphic
    and not an [on_device] call. *)
Definition plain (x : Expr) : Prop :=
  device_polymorphic x = false ∧ GetOnDeviceProps x = OK NoProps.

(** The node [OnDevice] builds once its check has passed. *)
Definition on_device_node (b : Expr) (s : SEScope) (cr cb : bool) : Expr :=
  CallExpr OnDeviceOp [b]
    (OnDeviceAttrs (if cr || cb then s else FullyUnconstrained) cr cb)
    [] (span_of b).

(** Sample expressions and scopes for the closed examples. *)
Definition scope_accel : SEScope := ConcreteSEScope "accel" 0 None.
Definition scope_cpu : SEScope := ConcreteSEScope "cpu" 0 None.
Definition var_x : Expr := VarExpr "x" None.
Definition var_y : Expr := VarExpr "y" None.
Definition call_add : Expr :=
  CallExpr (OpExpr "add") [var_x; var_y] AttrsUndefined [] None.
Definition fn_two : FunctionNode := MkFunction [var_x; var_y] call_add ∅ None.

(** A function of two parameters carrying a parameter-scope list of length
    one. *)
Definition fn_two_mismatch : FunctionNode :=
  MkFunction [var_x; var_y] call_add
    {[ kParamSEScopes := SEScopeArrayRef [scope_accel] ]} None.

(** Annotations written directly with [OnDevice], as its registration under
    "relay.op.annotation._make.OnDevice" allows: over the call of "add", and
    over such an annotation. *)
Definition inner_body_only : Expr := on_device_node call_add scope_accel false true.
Definition inner_result_only : Expr := on_device_node call_add scope_accel true false.
Definition inner_both : Expr := on_device_node call_add scope_accel true true.
Definition doubly_wrapped : Expr := on_device_node inner_both scope_accel true true.

(** ** Successive annotation requests *)

(** A caller annotating the same expression several times: each request is
    handed the result of the one before, and the first failure aborts. *)
Fixpoint MaybeOnDevice_requests (e : Expr)
    (requests : list (SEScope * bool * bool)) : result Expr :=
  match requests with
  | [] => OK e
  | (scope, r, c) :: rest =>
      e' ← MaybeOnDevice e scope r c ; MaybeOnDevice_requests e' rest
  end.

(** ** The type relation of the NPU identity operator
       (src/relay/op/contrib/ethosu/identity.cc) *)

(** [attrs.as<EthosuIdentityAttrs>() != nullptr]: the attributes node is the
    one declared under the type key "relay.attrs.EthosuIdentityAttrs". *)
Definition is_EthosuIdentityAttrs (attrs : Attrs) : bool :=
  match attrs with
  | OtherAttrs type_key =>
      bool_decide (type_key = "relay.attrs.EthosuIdentityAttrs")
  | _ => false
  end.

(** The two diagnostics the relation emits, with the value it streams. *)
Inductive IdentityDiagnostic : Type :=
  | InvalidIfmDtype (dtype : string)
      (* "Invalid operator: Expected type(uint8) or type(int8) for ifm but
         was " << ifm->dtype *)
  | IfmAbove4Dimensions (shape : list Z).
      (* "Invalid operator: Input Feature Map should be at most 4
         dimensional, but was " << ifm->shape *)

(** What a call of the relation does: one of its two [ICHECK]s fails, it
    returns false without a diagnostic, it emits a fatal diagnostic, or it
    assigns a type to the result slot and returns true. *)
Inductive RelOutcome : Type :=
  | TypesSizeCheckFailed     (* ICHECK_EQ(types.size(), result_index + 1) *)
  | AttrsCheckFailed         (* "EthosuIdentityAttrs cannot be nullptr." *)
  | RelFalse
  | EmitFatal (diagnostic : IdentityDiagnostic)
  | Assigned (slot assigned_type : RelayType).

(** [bool EthosuIdentityRel(const Array<Type>& types, int num_inputs,
      const Attrs& attrs, const TypeReporter& reporter)].  A data type is
    held by its name, "uint8" for [DataType::UInt(8)] and "int8" for
    [DataType::Int(8)].  Once the size check has passed, [types] has the three
    entries [types[0]] (ifm), [types[1]] and [types[2]] (result). *)
Definition EthosuIdentityRel (types : list RelayType) (num_inputs : Z)
    (attrs : Attrs) : RelOutcome :=
  match types with
  | [ifm_type; _; result_type] =>
      match ifm_type with
      | TensorType ifm_shape ifm_dtype =>
          if negb (is_EthosuIdentityAttrs attrs) then AttrsCheckFailed
          else if bool_decide (ifm_dtype ≠ "uint8")
                  && bool_decide (ifm_dtype ≠ "int8")
          then EmitFatal (InvalidIfmDtype ifm_dtype)
          else if bool_decide (4 < length ifm_shape)%nat
          then EmitFatal (IfmAbove4Dimensions ifm_shape)
          else
            let ofm_shape := ifm_shape in
            Assigned result_type (TensorType ofm_shape ifm_dtype)
      | _ => RelFalse
      end
  | _ => TypesSizeCheckFailed
  end.

(** Sample types and attributes for the closed examples. *)
Definition identity_attrs : Attrs := OtherAttrs "relay.attrs.EthosuIdentityAttrs".
Definition ifm_int8 : RelayType := TensorType [1; 8; 8; 3]%Z "int8".
Definition lut_type : RelayType := TensorType [256]%Z "int8".
Definition incomplete_type : RelayType := TypeVar "ofm".

(** ** Basic facts about the helpers *)

Section Helpers.
Implicit Types (e b x : Expr) (s S : SEScope) (r c cr cb : bool).

Lemma OnDevice_concrete b s cr cb :
  IsFullyUnconstrained s = false →
  OnDevice b s cr cb = OK (on_device_node b s cr cb).
Proof.
  intros Hs. unfold OnDevice. rewrite Hs, orb_true_r. reflexivity.
Qed.

Lemma OnDevice_unconstrained b s cr cb :
  cr || cb = true → IsFullyUnconstrained s = true →
  OnDevice b s cr cb = Fatal OnDeviceUnconstrainedScope.
Proof.
  intros Hf Hs. unfold OnDevice. rewrite Hs.
  destruct cr, cb; try discriminate; reflexivity.
Qed.

Lemma OnDevice_inv b s cr cb node :
  OnDevice b s cr cb = OK node →
  node = on_device_node b s cr cb ∧
  (cr || cb = true → IsFullyUnconstrained s = false).
Proof.
  unfold OnDevice. destruct cr, cb, (IsFullyUnconstrained s); simpl;
    intros H; inversion H; auto.
Qed.

(** An annotation is a call, so none of the early returns applies to it. *)
Lemma annotation_not_polymorphic e b s cr cb :
  annotation e b s cr cb → device_polymorphic e = false.
Proof. unfold annotation. destruct e; simpl; try discriminate; auto. Qed.

Lemma MaybeOnDevice_unconstrained e S r c :
  IsFullyUnconstrained S = true → MaybeOnDevice e S r c = OK e.
Proof. intros H. unfold MaybeOnDevice. rewrite H. reflexivity. Qed.

Lemma MaybeOnDevice_polymorphic e S r c :
  device_polymorphic e = true → MaybeOnDevice e S r c = OK e.
Proof.
  unfold MaybeOnDevice, device_polymorphic.
  destruct (IsFullyUnconstrained S); [reflexivity|].
  destruct e; simpl; try discriminate; reflexivity.
Qed.

(** Past the early returns [MaybeOnDevice] is the decomposition followed by
    one of the two calls of [OnDevice]. *)
Lemma MaybeOnDevice_wraps e S r c :
  IsFullyUnconstrained S = false → device_polymorphic e = false →
  MaybeOnDevice e S r c =
    (props ← GetOnDeviceProps e ;
     match body props with
     | Some props_body =>
         ICHECK (negb (r && constrain_body props)
                 || bool_decide (se_scope props = S))
                ResultBodyDifferentSEScopes ;;
         ICHECK (negb (c && constrain_result props)
                 || bool_decide (se_scope props = S))
                IntermediateDifferentSEScopes ;;
         OnDevice props_body
           (if constrain_body props || r then S else se_scope props)
           r (constrain_body props)
     | None => OnDevice e S r c
     end).
Proof.
  intros HS He. unfold MaybeOnDevice. rewrite HS.
  unfold device_polymorphic in He.
  destruct e as [| | | | |op args attrs ta sp| | | | |];
    simpl in He; try discriminate; simpl; try reflexivity.
  destruct (GetOnDeviceProps_call op args attrs) as [[]|]; reflexivity.
Qed.

Lemma MaybeOnDevice_plain x S r c :
  plain x → IsFullyUnconstrained S = false →
  MaybeOnDevice x S r c = OK (on_device_node x S r c).
Proof.
  intros [Hp Hx] HS. rewrite MaybeOnDevice_wraps by done.
  rewrite Hx. simpl. by apply OnDevice_concrete.
Qed.

(** The nested case in closed form: the two checks, then the node. *)
Lemma MaybeOnDevice_nested e b s cr cb S r c :
  annotation e b s cr cb → IsFullyUnconstrained S = false →
  MaybeOnDevice e S r c =
    if r && cb && negb (bool_decide (s = S))
    then Fatal ResultBodyDifferentSEScopes
    else if c && cr && negb (bool_decide (s = S))
    then Fatal IntermediateDifferentSEScopes
    else OK (on_device_node b S r cb).
Proof.
  intros He HS.
  rewrite MaybeOnDevice_wraps by eauto using annotation_not_polymorphic.
  unfold annotation in He. rewrite He. simpl.
  destruct (bool_decide (s = S)) eqn:Heq.
  - rewrite !orb_true_r, !andb_false_r. simpl.
    destruct (cb || r) eqn:Hf.
    + rewrite OnDevice_concrete by done. unfold on_device_node.
      rewrite (orb_comm r cb), Hf. reflexivity.
    + apply orb_false_elim in Hf as [-> ->]. reflexivity.
  - rewrite !orb_false_r, !andb_true_r.
    destruct (r && cb) eqn:Hrc; simpl; [reflexivity|].
    destruct (c && cr) eqn:Hccr; simpl; [reflexivity|].
    destruct (cb || r) eqn:Hf.
    + rewrite OnDevice_concrete by done. unfold on_device_node.
      rewrite (orb_comm r cb), Hf. reflexivity.
    + apply orb_false_elim in Hf as [-> ->]. reflexivity.
Qed.

Lemma plain_call_add : plain call_add.
Proof. split; reflexivity. Qed.

End Helpers.

(** ** The helpers on the sample expressions *)

(** A fresh annotation over the call of "add" and its decomposition. *)
Example MaybeOnDevice_fresh :
  MaybeOnDevice call_add scope_accel true false = OK inner_result_only ∧
  GetOnDeviceProps inner_result_only
  = OK (MkProps (Some call_add) scope_accel true false).
Proof. split; reflexivity. Qed.

(** Wrapping that annotation again, now constraining the body: the two
    sources of the middle value agree, and the merged node keeps neither
    flag, hence the unconstrained scope. *)
Example MaybeOnDevice_merge :
  MaybeOnDevice inner_result_only scope_accel false true
  = OK (CallExpr OnDeviceOp [call_add]
          (OnDeviceAttrs FullyUnconstrained false false) [] None).
Proof. reflexivity. Qed.

(** An expression that is no [on_device] call decomposes to the empty
    properties; an [on_device] call without attributes cannot be decomposed. *)
Example GetOnDeviceProps_other :
  GetOnDeviceProps call_add = OK NoProps ∧
  GetOnDeviceProps (CallExpr OnDeviceOp [call_add] AttrsUndefined [] None)
  = Fatal OnDeviceRequiresAttributes.
Proof. split; reflexivity. Qed.

Example MaybeFunctionOnDevice_nothing :
  MaybeFunctionOnDevice fn_two [FullyUnconstrained; FullyUnconstrained]
                        FullyUnconstrained = fn_two ∧
  GetFunctionResultSEScope fn_two = OK FullyUnconstrained ∧
  GetFunctionResultSEScope
    (MaybeFunctionOnDevice fn_two [scope_accel; scope_cpu] scope_cpu)
  = OK scope_cpu.
Proof. repeat split; reflexivity. Qed.

(** ** The annotation constructor *)

(** C10: [OnDevice] (the spec's [build]) enforces the invariant in both
    directions.  Called with a constraint flag set and the fully unconstrained
    scope it fails fatally; whenever it returns a node, that node decomposes
    to the given body and flags, and its stored scope is concrete if and only
    if at least one flag is set (with both flags false the stored scope is the
    unconstrained sentinel, whatever scope was passed). *)
Theorem OnDevice_two_way_invariant (b : Expr) (s : SEScope) (cr cb : bool) :
  (cr || cb = true → IsFullyUnconstrained s = true →
   OnDevice b s cr cb = Fatal OnDeviceUnconstrainedScope) ∧
  (∀ node, OnDevice b s cr cb = OK node →
     ∃ stored,
       annotation node b stored cr cb ∧
       (IsFullyUnconstrained stored = false ↔ cr || cb = true) ∧
       (cr || cb = false → stored = FullyUnconstrained)).
Proof.
  split; [apply OnDevice_unconstrained|].
  intros node H. apply OnDevice_inv in H as [-> Hs].
  exists (if cr || cb then s else FullyUnconstrained).
  split; [reflexivity|].
  destruct (cr || cb); simpl; [|by intuition].
  split; [|done]. split; [done|]. intros _. by apply Hs.
Qed.

Lemma OnDevice_two_way_invariant_witness :
  OnDevice call_add FullyUnconstrained true false
    = Fatal OnDeviceUnconstrainedScope ∧
  ∃ stored,
    annotation (on_device_node call_add scope_accel false false)
               call_add stored false false ∧
    (IsFullyUnconstrained stored = false ↔ false || false = true) ∧
    (false || false = false → stored = FullyUnconstrained).
Proof.
  split.
  - apply (OnDevice_two_way_invariant call_add FullyUnconstrained true false);
      reflexivity.
  - apply (OnDevice_two_way_invariant call_add scope_accel false false).
    reflexivity.
Defined.

(** ** Early returns of [MaybeOnDevice] *)

(** C7: annotating with the fully unconstrained scope and both flags false
    returns the expression unchanged, for every expression. *)
Theorem MaybeOnDevice_unconstrained_noop (e : Expr) :
  MaybeOnDevice e FullyUnconstrained false false = OK e.
Proof. reflexivity. Qed.

(** C8: a bare operator, constructor, global variable or local variable
    reference and a function value are returned unchanged, for every requested
    scope and every combination of the two flags. *)
Theorem MaybeOnDevice_device_polymorphic (S : SEScope) (r c : bool) :
  (∀ name, MaybeOnDevice (OpExpr name) S r c = OK (OpExpr name)) ∧
  (∀ name sp,
     MaybeOnDevice (ConstructorExpr name sp) S r c = OK (ConstructorExpr name sp)) ∧
  (∀ name sp,
     MaybeOnDevice (GlobalVarExpr name sp) S r c = OK (GlobalVarExpr name sp)) ∧
  (∀ name sp, MaybeOnDevice (VarExpr name sp) S r c = OK (VarExpr name sp)) ∧
  (∀ f, MaybeOnDevice (FunctionExpr f) S r c = OK (FunctionExpr f)).
Proof.
  repeat split; intros; by apply MaybeOnDevice_polymorphic.
Qed.

(** ** Function placement accessors *)

Lemma params_FunctionOnDevice f ps rs :
  params (FunctionOnDevice f ps rs) = params f.
Proof. by destruct f. Qed.

Lemma lookup_param_FunctionOnDevice f ps rs :
  fn_attrs (FunctionOnDevice f ps rs) !! kParamSEScopes
  = Some (SEScopeArrayRef ps).
Proof.
  destruct f as [p b old sp]. simpl.
  apply lookup_union_Some_l.
  rewrite lookup_insert_ne by done. apply lookup_insert_eq.
Qed.

Lemma lookup_result_FunctionOnDevice f ps rs :
  fn_attrs (FunctionOnDevice f ps rs) !! kResultSEScope = Some (SEScopeRef rs).
Proof.
  destruct f as [p b old sp]. simpl.
  apply lookup_union_Some_l, lookup_insert_eq.
Qed.

(** C6: [GetFunctionParamSEScope] (the spec's [param_scope]) fails fatally
    when the index is not below the function's arity; fails fatally when a
    parameter-scope list is attached whose length differs from the arity (with
    the arity-mismatch failure when the index is in range, the index failure
    coming first otherwise); otherwise returns the entry of the attached list
    at the index, and the fully unconstrained scope when no list is
    attached. *)
Theorem GetFunctionParamSEScope_cases (f : FunctionNode) (i : nat) :
  (length (params f) ≤ i →
   GetFunctionParamSEScope f i = Fatal ParamIndexOutOfRange) ∧
  (∀ param_se_scopes,
     fn_attrs f !! kParamSEScopes = Some (SEScopeArrayRef param_se_scopes) →
     length param_se_scopes ≠ length (params f) →
     GetFunctionParamSEScope f i
     = Fatal (if bool_decide (i < length (params f))
              then AnnotationArityMismatch else ParamIndexOutOfRange)) ∧
  (∀ param_se_scopes,
     i < length (params f) →
     fn_attrs f !! kParamSEScopes = Some (SEScopeArrayRef param_se_scopes) →
     length param_se_scopes = length (params f) →
     ∃ se_scope, param_se_scopes !! i = Some se_scope ∧
                 GetFunctionParamSEScope f i = OK se_scope) ∧
  (i < length (params f) →
   fn_attrs f !! kParamSEScopes = None →
   GetFunctionParamSEScope f i = OK FullyUnconstrained).
Proof.
  unfold GetFunctionParamSEScope, GetAttr_SEScopeArray.
  repeat split.
  - intros Hi. rewrite bool_decide_eq_false_2 by lia. reflexivity.
  - intros l Hl Hne. case_bool_decide; [|reflexivity].
    rewrite Hl. simpl. rewrite bool_decide_eq_false_2 by done. reflexivity.
  - intros l Hi Hl Heq. rewrite bool_decide_eq_true_2 by done.
    rewrite Hl. simpl. rewrite bool_decide_eq_true_2 by done. simpl.
    destruct (lookup_lt_is_Some_2 l i) as [se Hse]; [lia|].
    exists se. by rewrite Hse.
  - intros Hi Hl. rewrite bool_decide_eq_true_2 by done.
    rewrite Hl. reflexivity.
Qed.

Lemma GetFunctionParamSEScope_cases_witness :
  GetFunctionParamSEScope fn_two 2 = Fatal ParamIndexOutOfRange ∧
  GetFunctionParamSEScope fn_two_mismatch 0 = Fatal AnnotationArityMismatch ∧
  (∃ se_scope, [scope_accel; scope_cpu] !! 1 = Some se_scope ∧
     GetFunctionParamSEScope
       (FunctionOnDevice fn_two [scope_accel; scope_cpu] scope_accel) 1
     = OK se_scope) ∧
  GetFunctionParamSEScope fn_two 1 = OK FullyUnconstrained.
Proof.
  split; [|split; [|split]].
  - apply (GetFunctionParamSEScope_cases fn_two 2). simpl. lia.
  - apply (GetFunctionParamSEScope_cases fn_two_mismatch 0)
      with (param_se_scopes := [scope_accel]).
    + reflexivity.
    + simpl. lia.
  - apply (GetFunctionParamSEScope_cases
             (FunctionOnDevice fn_two [scope_accel; scope_cpu] scope_accel) 1).
    + simpl. lia.
    + reflexivity.
    + reflexivity.
  - apply (GetFunctionParamSEScope_cases fn_two 1).
    + simpl. lia.
    + reflexivity.
Defined.

(** C9: attached placement metadata is read back exactly by the accessors.
    After [FunctionOnDevice f [] FullyUnconstrained] the result scope reads as
    fully unconstrained, whatever [f] carried before; after any
    [FunctionOnDevice f ps rs] the result scope reads as [rs]; and for a
    function of two parameters, after [FunctionOnDevice f [A; B] C] parameter
    0 reads as [A], parameter 1 reads as [B], the result scope reads as [C],
    and asking for parameter 2 fails with the index-out-of-range arity
    violation. *)
Theorem FunctionOnDevice_read_back :
  (∀ f, GetFunctionResultSEScope (FunctionOnDevice f [] FullyUnconstrained)
        = OK FullyUnconstrained) ∧
  (∀ f ps rs, GetFunctionResultSEScope (FunctionOnDevice f ps rs) = OK rs) ∧
  (∀ f A B C,
     length (params f) = 2 →
     GetFunctionParamSEScope (FunctionOnDevice f [A; B] C) 0 = OK A ∧
     GetFunctionParamSEScope (FunctionOnDevice f [A; B] C) 1 = OK B ∧
     GetFunctionResultSEScope (FunctionOnDevice f [A; B] C) = OK C ∧
     GetFunctionParamSEScope (FunctionOnDevice f [A; B] C) 2
     = Fatal ParamIndexOutOfRange).
Proof.
  assert (Hres : ∀ f ps rs,
            GetFunctionResultSEScope (FunctionOnDevice f ps rs) = OK rs).
  { intros f ps rs. unfold GetFunctionResultSEScope, GetAttr_SEScope.
    by rewrite lookup_result_FunctionOnDevice. }
  split; [|split].
  - intros f. apply Hres.
  - exact Hres.
  - intros f A B C Hf. rewrite Hres.
    unfold GetFunctionParamSEScope, GetAttr_SEScopeArray.
    rewrite params_FunctionOnDevice, Hf, lookup_param_FunctionOnDevice.
    repeat split; reflexivity.
Qed.

Lemma FunctionOnDevice_read_back_witness :
  GetFunctionParamSEScope
    (FunctionOnDevice fn_two_mismatch [scope_accel; scope_cpu] scope_accel) 0
  = OK scope_accel ∧
  GetFunctionParamSEScope
    (FunctionOnDevice fn_two_mismatch [scope_accel; scope_cpu] scope_accel) 1
  = OK scope_cpu ∧
  GetFunctionResultSEScope
    (FunctionOnDevice fn_two_mismatch [scope_accel; scope_cpu] scope_accel)
  = OK scope_accel ∧
  GetFunctionParamSEScope
    (FunctionOnDevice fn_two_mismatch [scope_accel; scope_cpu] scope_accel) 2
  = Fatal ParamIndexOutOfRange.
Proof.
  destruct FunctionOnDevice_read_back as (_ & _ & Htwo).
  apply (Htwo fn_two_mismatch scope_accel scope_cpu scope_accel).
  reflexivity.
Defined.

(** ** Merging nested annotations *)

(** C1, as stated, fails on the code.  (1) The inner annotation constrains
    only its body to "accel" and the outer request constrains only its result
    to "cpu": neither source of the middle value is active, yet the call
    fails, in the check between result and body.  (2) Both sources are active
    with different scopes, but the requested scope is the fully unconstrained
    one: the call returns the body instead of failing. *)
Lemma middle_value_claim_counterexample :
  (annotation inner_body_only call_add scope_accel false true ∧
   MaybeOnDevice inner_body_only scope_cpu true false
   = Fatal ResultBodyDifferentSEScopes) ∧
  (annotation inner_result_only call_add scope_accel true false ∧
   scope_accel ≠ FullyUnconstrained ∧
   MaybeOnDevice inner_result_only FullyUnconstrained false true
   = OK inner_result_only).
Proof. repeat split; done. Qed.

(** C1 (amended): for a body that is already an annotation and a concrete
    requested scope, the middle value has two sources, the outer
    [constrain_body] with the outer scope and the inner [constrain_result]
    with the inner scope.  If both are active and the scopes differ the call
    fails with a placement contradiction; if both are active and the scopes
    agree it succeeds; if at most one is active the middle value is not
    checked: the call never fails in the intermediate check, fails in the
    check between result and body exactly when the outer [constrain_result]
    and the inner [constrain_body] are both set with different scopes, and
    succeeds otherwise. *)
Theorem MaybeOnDevice_middle_value
    (e b : Expr) (s : SEScope) (cr cb : bool) (S : SEScope) (r c : bool) :
  annotation e b s cr cb → IsFullyUnconstrained S = false →
  (c = true → cr = true → s ≠ S →
   placement_contradiction (MaybeOnDevice e S r c)) ∧
  (c = true → cr = true → s = S →
   MaybeOnDevice e S r c = OK (on_device_node b S r cb)) ∧
  (c && cr = false →
   MaybeOnDevice e S r c ≠ Fatal IntermediateDifferentSEScopes ∧
   (r = true → cb = true → s ≠ S →
    MaybeOnDevice e S r c = Fatal ResultBodyDifferentSEScopes) ∧
   (¬ (r = true ∧ cb = true ∧ s ≠ S) →
    MaybeOnDevice e S r c = OK (on_device_node b S r cb))).
Proof.
  intros He HS. rewrite (MaybeOnDevice_nested e b s cr cb S r c He HS).
  split; [|split].
  - intros -> -> Hne. rewrite bool_decide_eq_false_2 by done. simpl.
    destruct (r && cb); [by left | by right].
  - intros -> -> Heq. rewrite bool_decide_eq_true_2 by done.
    by rewrite !andb_false_r.
  - intros Hm. rewrite Hm. simpl. split; [|split].
    + by destruct (r && cb && negb (bool_decide (s = S))).
    + intros -> -> Hne. by rewrite bool_decide_eq_false_2.
    + intros Hn. case_bool_decide as Heq.
      * by rewrite andb_false_r.
      * destruct r, cb; simpl; try done. exfalso. by apply Hn.
Qed.

Lemma MaybeOnDevice_middle_value_witness :
  placement_contradiction (MaybeOnDevice inner_result_only scope_cpu false true) ∧
  MaybeOnDevice inner_result_only scope_accel false true
  = OK (on_device_node call_add scope_accel false false) ∧
  MaybeOnDevice inner_body_only scope_cpu true false
  = Fatal ResultBodyDifferentSEScopes ∧
  MaybeOnDevice inner_body_only scope_cpu false true
  = OK (on_device_node call_add scope_cpu false true).
Proof.
  split; [|split; [|split]].
  - destruct (MaybeOnDevice_middle_value inner_result_only call_add
                scope_accel true false scope_cpu false true)
      as (Hdiffer & _ & _); [reflexivity | reflexivity |].
    apply Hdiffer; done.
  - destruct (MaybeOnDevice_middle_value inner_result_only call_add
                scope_accel true false scope_accel false true)
      as (_ & Hagree & _); [reflexivity | reflexivity |].
    apply Hagree; done.
  - destruct (MaybeOnDevice_middle_value inner_body_only call_add
                scope_accel false true scope_cpu true false)
      as (_ & _ & Hsingle); [reflexivity | reflexivity |].
    apply Hsingle; done.
  - destruct (MaybeOnDevice_middle_value inner_body_only call_add
                scope_accel false true scope_cpu false true)
      as (_ & _ & Hsingle); [reflexivity | reflexivity |].
    apply Hsingle; [reflexivity|]. intros (Hr & _ & _). discriminate Hr.
Defined.

(** C2, as stated, fails on the code: the inner annotation constrains only
    its body to "accel", the outer request sets both flags with scope "cpu";
    the middle value has a single active source, and the merge fails. *)
Lemma result_body_claim_counterexample :
  annotation inner_body_only call_add scope_accel false true ∧
  true && false = false ∧
  scope_cpu ≠ scope_accel ∧
  MaybeOnDevice inner_body_only scope_cpu true true
  = Fatal ResultBodyDifferentSEScopes.
Proof. repeat split; done. Qed.

(** C2 (amended): in the nested merge the outer [constrain_result] and the
    inner [constrain_body] are checked against each other, before the middle
    value is looked at.  For a concrete requested scope, when both are set
    the merge fails with the result/body contradiction if the outer scope
    differs from the inner scope, whatever the middle-value sources are, and
    succeeds with the collapsed annotation if the two scopes agree. *)
Theorem MaybeOnDevice_result_body_check
    (e b : Expr) (s : SEScope) (cr : bool) (S : SEScope) (c : bool) :
  annotation e b s cr true → IsFullyUnconstrained S = false →
  (s ≠ S → MaybeOnDevice e S true c = Fatal ResultBodyDifferentSEScopes) ∧
  (s = S → MaybeOnDevice e S true c = OK (on_device_node b S true true)).
Proof.
  intros He HS. rewrite (MaybeOnDevice_nested e b s cr true S true c He HS).
  split; intros Hs.
  - by rewrite bool_decide_eq_false_2.
  - rewrite bool_decide_eq_true_2 by done. by rewrite !andb_false_r.
Qed.

Lemma MaybeOnDevice_result_body_check_witness :
  MaybeOnDevice inner_body_only scope_cpu true false
  = Fatal ResultBodyDifferentSEScopes ∧
  MaybeOnDevice inner_body_only scope_accel true false
  = OK (on_device_node call_add scope_accel true true).
Proof.
  split.
  - apply (MaybeOnDevice_result_body_check inner_body_only call_add
             scope_accel false scope_cpu false); done.
  - apply (MaybeOnDevice_result_body_check inner_body_only call_add
             scope_accel false scope_accel false); done.
Defined.

(** A successful merge over an annotation is the node [OnDevice] builds over
    the inner body, with the outer [constrain_result] and the inner
    [constrain_body]. *)
Lemma MaybeOnDevice_nested_inv e b s cr cb S r c e' :
  annotation e b s cr cb → IsFullyUnconstrained S = false →
  MaybeOnDevice e S r c = OK e' → e' = on_device_node b S r cb.
Proof.
  intros He HS. rewrite (MaybeOnDevice_nested e b s cr cb S r c He HS).
  destruct (r && cb && negb (bool_decide (s = S))); [discriminate|].
  destruct (c && cr && negb (bool_decide (s = S))); [discriminate|].
  by intros [= <-].
Qed.

Lemma annotation_on_device_node b S r c :
  annotation (on_device_node b S r c) b
             (if r || c then S else FullyUnconstrained) r c.
Proof. reflexivity. Qed.

(** Asking again for what a node already says gives the node back. *)
Lemma MaybeOnDevice_on_device_node b S r cb c :
  IsFullyUnconstrained S = false →
  MaybeOnDevice (on_device_node b S r cb) S r c = OK (on_device_node b S r cb).
Proof.
  intros HS.
  rewrite (MaybeOnDevice_nested _ _ _ _ _ S r c
             (annotation_on_device_node b S r cb) HS).
  destruct r, cb, c; simpl; try reflexivity;
    by rewrite bool_decide_eq_true_2.
Qed.

(** C3, as stated, fails on the code.  The body is an annotation whose own
    body is again an annotation (over the call of "add").  The merge builds
    its result with [OnDevice] over the body of the outermost annotation only:
    the result still wraps the inner annotation, is not an annotation over
    the innermost body, and differs from what re-entering [MaybeOnDevice] on
    the inner body would return. *)
Lemma nested_collapse_claim_counterexample :
  annotation doubly_wrapped inner_both scope_accel true true ∧
  annotation inner_both call_add scope_accel true true ∧
  MaybeOnDevice doubly_wrapped scope_accel true true = OK doubly_wrapped ∧
  GetOnDeviceProps doubly_wrapped
  ≠ OK (MkProps (Some call_add) scope_accel true true) ∧
  MaybeOnDevice inner_both scope_accel true true = OK inner_both ∧
  MaybeOnDevice doubly_wrapped scope_accel true true
  ≠ MaybeOnDevice inner_both scope_accel true true.
Proof. repeat split; done. Qed.

(** C3 (amended): when [MaybeOnDevice] collapses a nested annotation (the
    requested scope being concrete), the result is the single annotation
    [OnDevice] builds over the inner annotation's body, carrying the outer
    [constrain_result] and the inner [constrain_body]; it is built directly,
    one call removing one level of nesting.  For three successive successful
    calls with concrete scopes on a body that is neither device polymorphic
    nor an annotation, the result is a single annotation over that innermost
    body. *)
Theorem MaybeOnDevice_collapse :
  (∀ e b s cr cb S r c e',
     annotation e b s cr cb → IsFullyUnconstrained S = false →
     MaybeOnDevice e S r c = OK e' →
     OnDevice b (if cb || r then S else s) r cb = OK e' ∧
     annotation e' b (if r || cb then S else FullyUnconstrained) r cb) ∧
  (∀ z S1 r1 c1 S2 r2 c2 S3 r3 c3 e1 e2 e3,
     plain z →
     IsFullyUnconstrained S1 = false → IsFullyUnconstrained S2 = false →
     IsFullyUnconstrained S3 = false →
     MaybeOnDevice z S1 r1 c1 = OK e1 →
     MaybeOnDevice e1 S2 r2 c2 = OK e2 →
     MaybeOnDevice e2 S3 r3 c3 = OK e3 →
     annotation e3 z (if r3 || c1 then S3 else FullyUnconstrained) r3 c1).
Proof.
  split.
  - intros e b s cr cb S r c e' He HS H.
    apply (MaybeOnDevice_nested_inv e b s cr cb S r c e' He HS) in H as ->.
    split; [|apply annotation_on_device_node].
    destruct (cb || r) eqn:Hf.
    + rewrite OnDevice_concrete by done. done.
    + apply orb_false_elim in Hf as [-> ->]. reflexivity.
  - intros z S1 r1 c1 S2 r2 c2 S3 r3 c3 e1 e2 e3 Hz H1 H2 H3 He1 He2 He3.
    rewrite MaybeOnDevice_plain in He1 by done. injection He1 as <-.
    apply (MaybeOnDevice_nested_inv _ _ _ _ _ _ _ _ _
             (annotation_on_device_node z S1 r1 c1) H2) in He2 as ->.
    apply (MaybeOnDevice_nested_inv _ _ _ _ _ _ _ _ _
             (annotation_on_device_node z S2 r2 c1) H3) in He3 as ->.
    apply annotation_on_device_node.
Qed.

Lemma MaybeOnDevice_collapse_witness :
  (OnDevice call_add scope_accel true true
   = OK (on_device_node call_add scope_accel true true) ∧
   annotation (on_device_node call_add scope_accel true true)
              call_add scope_accel true true) ∧
  annotation (on_device_node call_add scope_cpu true true)
             call_add scope_cpu true true.
Proof.
  split.
  - apply (proj1 MaybeOnDevice_collapse inner_body_only call_add scope_accel
                 false true scope_accel true false); reflexivity.
  - apply (proj2 MaybeOnDevice_collapse call_add
                 scope_cpu false true scope_cpu true false scope_cpu true true
                 (on_device_node call_add scope_cpu false true)
                 (on_device_node call_add scope_cpu true true)
                 (on_device_node call_add scope_cpu true true));
      first [apply plain_call_add | reflexivity].
Defined.

(** C4, as stated for every expression, fails on the code: a variable
    reference is returned unchanged by both calls, so with two different
    scopes nothing fails, and with one scope the result is not an
    annotation. *)
Lemma contradiction_claim_counterexample :
  scope_accel ≠ scope_cpu ∧
  (e1 ← MaybeOnDevice var_x scope_accel false true ;
   MaybeOnDevice e1 scope_cpu true false) = OK var_x ∧
  (e1 ← MaybeOnDevice var_x scope_accel false true ;
   MaybeOnDevice e1 scope_accel true false) = OK var_x ∧
  GetOnDeviceProps var_x = OK NoProps.
Proof. repeat split; done. Qed.

(** C4 (amended): for every expression [x] that is neither device polymorphic
    nor an [on_device] call and concrete scopes [A] and [B]: if [A] and [B]
    differ, [MaybeOnDevice (MaybeOnDevice x A false true) B true false] fails
    with a placement contradiction (raised by the check between result and
    body); and [MaybeOnDevice (MaybeOnDevice x A false true) A true false]
    succeeds with a single annotation over [x] whose scope is [A]. *)
Theorem MaybeOnDevice_contradiction_detection (x : Expr) (A B : SEScope) :
  plain x → IsFullyUnconstrained A = false → IsFullyUnconstrained B = false →
  (A ≠ B →
   (e1 ← MaybeOnDevice x A false true ; MaybeOnDevice e1 B true false)
   = Fatal ResultBodyDifferentSEScopes ∧
   placement_contradiction
     (e1 ← MaybeOnDevice x A false true ; MaybeOnDevice e1 B true false)) ∧
  (∃ e, (e1 ← MaybeOnDevice x A false true ; MaybeOnDevice e1 A true false)
        = OK e ∧
        annotation e x A true true).
Proof.
  intros Hx HA HB. rewrite MaybeOnDevice_plain by done. simpl.
  split.
  - intros Hne.
    rewrite (MaybeOnDevice_nested _ _ _ _ _ B true false
               (annotation_on_device_node x A false true) HB).
    simpl. rewrite bool_decide_eq_false_2 by done. simpl.
    split; [done | by left].
  - exists (on_device_node x A true true). split; [|reflexivity].
    rewrite (MaybeOnDevice_nested _ _ _ _ _ A true false
               (annotation_on_device_node x A false true) HA).
    simpl. by rewrite bool_decide_eq_true_2.
Qed.

Lemma MaybeOnDevice_contradiction_detection_witness :
  (e1 ← MaybeOnDevice call_add scope_accel false true ;
   MaybeOnDevice e1 scope_cpu true false)
  = Fatal ResultBodyDifferentSEScopes ∧
  ∃ e, (e1 ← MaybeOnDevice call_add scope_accel false true ;
        MaybeOnDevice e1 scope_accel true false) = OK e ∧
       annotation e call_add scope_accel true true.
Proof.
  destruct (MaybeOnDevice_contradiction_detection call_add scope_accel
              scope_cpu plain_call_add eq_refl eq_refl) as [Hdiffer Hagree].
  split; [|exact Hagree].
  apply Hdiffer. discriminate.
Defined.

(** C5, as stated for every expression, fails on the code: for a variable
    reference both calls return the reference, which is not an annotation and
    decomposes to no fields. *)
Lemma idempotence_claim_counterexample :
  MaybeOnDevice var_x scope_accel true true = OK var_x ∧
  MaybeOnDevice var_x scope_accel true true = OK var_x ∧
  GetOnDeviceProps var_x = OK NoProps ∧
  body NoProps = None.
Proof. repeat split; done. Qed.

(** C5 (amended): [MaybeOnDevice] is idempotent on identical requests.  For
    every expression, scope and flags for which the first call succeeds, the
    second call with the same scope and flags returns the first result itself,
    so no wrapping is added and decomposing gives the same fields.  When the
    scope is concrete and the expression is neither device polymorphic nor an
    [on_device] call, that result is a single annotation over the expression,
    with the requested flags and the requested scope (the unconstrained one
    when both flags are false). *)
Theorem MaybeOnDevice_idempotent (x : Expr) (S : SEScope) (r c : bool) (e1 : Expr) :
  MaybeOnDevice x S r c = OK e1 →
  MaybeOnDevice e1 S r c = OK e1 ∧
  (∀ e2, MaybeOnDevice e1 S r c = OK e2 →
         GetOnDeviceProps e2 = GetOnDeviceProps e1) ∧
  (plain x → IsFullyUnconstrained S = false →
   annotation e1 x (if r || c then S else FullyUnconstrained) r c ∧
   GetOnDeviceProps x = OK NoProps).
Proof.
  intros H1.
  assert (Hidem : MaybeOnDevice e1 S r c = OK e1).
  { destruct (IsFullyUnconstrained S) eqn:HS.
    { rewrite MaybeOnDevice_unconstrained in H1 |- * by done. congruence. }
    destruct (device_polymorphic x) eqn:Hp.
    { rewrite MaybeOnDevice_polymorphic in H1 by done.
      injection H1 as <-. by apply MaybeOnDevice_polymorphic. }
    rewrite MaybeOnDevice_wraps in H1 by done.
    destruct (GetOnDeviceProps x) as [[[b|] s cr cb]|] eqn:Hx;
      simpl in H1; [| |discriminate].
    - assert (He : annotation x b s cr cb) by exact Hx.
      assert (e1 = on_device_node b S r cb) as ->.
      { apply (MaybeOnDevice_nested_inv x b s cr cb S r c); [done..|].
        rewrite MaybeOnDevice_wraps by done. by rewrite Hx. }
      by apply MaybeOnDevice_on_device_node.
    - rewrite OnDevice_concrete in H1 by done. injection H1 as <-.
      by apply MaybeOnDevice_on_device_node. }
  split; [done|]. split.
  - intros e2 H2. congruence.
  - intros Hx HS. rewrite MaybeOnDevice_plain in H1 by done.
    injection H1 as <-. split; [apply annotation_on_device_node | apply Hx].
Qed.

Lemma MaybeOnDevice_idempotent_witness :
  MaybeOnDevice (on_device_node call_add scope_accel true false)
                scope_accel true false
  = OK (on_device_node call_add scope_accel true false) ∧
  annotation (on_device_node call_add scope_accel true false)
             call_add scope_accel true false.
Proof.
  destruct (MaybeOnDevice_idempotent call_add scope_accel true false
              (on_device_node call_add scope_accel true false) eq_refl)
    as (Hidem & _ & Hsingle).
  split; [exact Hidem|].
  apply Hsingle; [apply plain_call_add | reflexivity].
Defined.

(** ** Decomposing expressions *)

(** The decomposition of a call, case by case. *)
Lemma GetOnDeviceProps_call_cases op args attrs :
  GetOnDeviceProps_call op args attrs =
    if is_OnDeviceOp op then
      match args, attrs with
      | [b], OnDeviceAttrs s cr cb => OK (MkProps (Some b) s cr cb)
      | [_], AttrsUndefined => Fatal OnDeviceRequiresAttributes
      | [_], OtherAttrs _ => Fatal OnDeviceRequiresOnDeviceAttrs
      | _, _ => Fatal OnDeviceExpectsOneArgument
      end
    else OK NoProps.
Proof.
  unfold GetOnDeviceProps_call. destruct (is_OnDeviceOp op); [|reflexivity].
  destruct args as [|b [|b' args]]; try reflexivity.
  by destruct attrs.
Qed.

Lemma is_OnDeviceOp_true op : is_OnDeviceOp op = true ↔ op = OnDeviceOp.
Proof.
  destruct op; simpl; try (split; [discriminate | by intros [=]]).
  rewrite bool_decide_eq_true. split; [by intros -> | by intros [= ->]].
Qed.

(** An expression decomposes to the four fields of an annotation exactly when
    it is a call of the "on_device" operator with the body as its only
    argument and the fields in its [OnDeviceAttrs]; the type arguments and the
    span of the call play no part. *)
Theorem GetOnDeviceProps_annotation_iff
    (e b : Expr) (s : SEScope) (cr cb : bool) :
  annotation e b s cr cb ↔
  ∃ ta sp, e = CallExpr OnDeviceOp [b] (OnDeviceAttrs s cr cb) ta sp.
Proof.
  unfold annotation. split.
  - destruct e as [| | | | |op args attrs ta sp| | | | |];
      simpl; try discriminate.
    rewrite GetOnDeviceProps_call_cases.
    destruct (is_OnDeviceOp op) eqn:Hop; [|discriminate].
    apply is_OnDeviceOp_true in Hop as ->.
    destruct args as [|b0 [|b1 args]]; try discriminate.
    destruct attrs; try discriminate.
    intros [= -> -> -> ->]. eauto.
  - intros (ta & sp & ->). reflexivity.
Qed.

Lemma GetOnDeviceProps_annotation_iff_witness :
  ∃ ta sp,
    inner_both
    = CallExpr OnDeviceOp [call_add] (OnDeviceAttrs scope_accel true true) ta sp.
Proof.
  apply (proj1 (GetOnDeviceProps_annotation_iff inner_both call_add
                  scope_accel true true)).
  reflexivity.
Defined.

(** Decomposition fails only on calls of "on_device" that are not well
    formed: with a number of arguments other than one (checked first), without
    attributes, or with attributes of another operator.  Every expression
    that is not a call of "on_device" decomposes, without failure, to the
    empty properties. *)
Theorem GetOnDeviceProps_failures :
  (∀ e, (∀ args attrs ta sp, e ≠ CallExpr OnDeviceOp args attrs ta sp) →
        GetOnDeviceProps e = OK NoProps) ∧
  (∀ args attrs ta sp,
     length args ≠ 1 →
     GetOnDeviceProps (CallExpr OnDeviceOp args attrs ta sp)
     = Fatal OnDeviceExpectsOneArgument) ∧
  (∀ b ta sp,
     GetOnDeviceProps (CallExpr OnDeviceOp [b] AttrsUndefined ta sp)
     = Fatal OnDeviceRequiresAttributes) ∧
  (∀ b type_key ta sp,
     GetOnDeviceProps (CallExpr OnDeviceOp [b] (OtherAttrs type_key) ta sp)
     = Fatal OnDeviceRequiresOnDeviceAttrs) ∧
  (∀ e err,
     GetOnDeviceProps e = Fatal err →
     err = OnDeviceExpectsOneArgument ∨ err = OnDeviceRequiresAttributes ∨
     err = OnDeviceRequiresOnDeviceAttrs).
Proof.
  split; [|split; [|split; [|split]]].
  - intros e He.
    destruct e as [| | | | |op args attrs ta sp| | | | |]; try reflexivity.
    simpl. rewrite GetOnDeviceProps_call_cases.
    destruct (is_OnDeviceOp op) eqn:Hop; [|reflexivity].
    apply is_OnDeviceOp_true in Hop as ->. by destruct (He args attrs ta sp).
  - intros args attrs ta sp Hlen. simpl. rewrite GetOnDeviceProps_call_cases.
    simpl. destruct args as [|b [|b' args]]; try reflexivity.
    by destruct Hlen.
  - reflexivity.
  - reflexivity.
  - intros e err.
    destruct e as [| | | | |op args attrs ta sp| | | | |]; try discriminate.
    simpl. rewrite GetOnDeviceProps_call_cases.
    destruct (is_OnDeviceOp op); [|discriminate].
    destruct args as [|b [|b' args]], attrs; intros [= <-]; auto.
Qed.

Lemma GetOnDeviceProps_failures_witness :
  GetOnDeviceProps call_add = OK NoProps ∧
  GetOnDeviceProps (CallExpr OnDeviceOp [var_x; var_y]
                      (OnDeviceAttrs scope_accel true true) [] None)
  = Fatal OnDeviceExpectsOneArgument ∧
  (OnDeviceRequiresAttributes = OnDeviceExpectsOneArgument ∨
   OnDeviceRequiresAttributes = OnDeviceRequiresAttributes ∨
   OnDeviceRequiresAttributes = OnDeviceRequiresOnDeviceAttrs).
Proof.
  destruct GetOnDeviceProps_failures as (Hother & Hargs & _ & _ & Herr).
  split; [|split].
  - apply Hother. discriminate.
  - apply Hargs. simpl. lia.
  - apply (Herr (CallExpr OnDeviceOp [call_add] AttrsUndefined [] None)).
    reflexivity.
Defined.

(** [OnDevice] returns a node exactly when it is not asked to constrain
    something to the fully unconstrained scope; the node then decomposes to
    the very scope it was given exactly when a flag is set or that scope is
    the unconstrained one: a concrete scope passed with both flags false is
    not kept. *)
Theorem OnDevice_round_trip (b : Expr) (s : SEScope) (cr cb : bool) :
  ((∃ node, OnDevice b s cr cb = OK node) ↔
   (cr || cb = false ∨ IsFullyUnconstrained s = false)) ∧
  (∀ node, OnDevice b s cr cb = OK node →
     (annotation node b s cr cb ↔ (cr || cb = true ∨ s = FullyUnconstrained)) ∧
     span_of node = span_of b).
Proof.
  split.
  - split.
    + intros [node H]. apply OnDevice_inv in H as [_ H].
      destruct (cr || cb); [right; by apply H | by left].
    + intros [Hf | Hs].
      * apply orb_false_elim in Hf as [-> ->]. eexists. reflexivity.
      * eexists. by apply OnDevice_concrete.
  - intros node H. apply OnDevice_inv in H as [-> Hs].
    split; [|reflexivity].
    unfold annotation, on_device_node. simpl.
    destruct (cr || cb) eqn:Hf.
    + split; [by left | done].
    + split.
      * intros [= <-]. by right.
      * intros [? | ->]; done.
Qed.

Lemma OnDevice_round_trip_witness :
  (annotation (on_device_node call_add scope_accel false false)
              call_add scope_accel false false ↔
   (false || false = true ∨ scope_accel = FullyUnconstrained)) ∧
  span_of (on_device_node call_add scope_accel false false) = span_of call_add.
Proof.
  apply (proj2 (OnDevice_round_trip call_add scope_accel false false)).
  reflexivity.
Defined.

(** ** What [MaybeOnDevice] returns and when it fails *)

Lemma GetOnDeviceProps_body_Some e props :
  GetOnDeviceProps e = OK props →
  body props = None → props = NoProps.
Proof.
  destruct e as [| | | | |op args attrs ta sp| | | | |];
    simpl; try by intros [= <-].
  rewrite GetOnDeviceProps_call_cases.
  destruct (is_OnDeviceOp op); [|by intros [= <-]].
  destruct args as [|b [|b' args]], attrs; try discriminate.
  by intros [= <-].
Qed.

(** A second request with the same scope, whatever its flags, goes through. *)
Lemma MaybeOnDevice_on_device_node_same_scope b S r cb r' c' :
  IsFullyUnconstrained S = false →
  MaybeOnDevice (on_device_node b S r cb) S r' c'
  = OK (on_device_node b S r' cb).
Proof.
  intros HS.
  rewrite (MaybeOnDevice_nested _ _ _ _ _ S r' c'
             (annotation_on_device_node b S r cb) HS).
  destruct r, cb, r', c'; simpl; try reflexivity;
    by rewrite bool_decide_eq_true_2.
Qed.

(** [MaybeOnDevice] fails only under a concrete scope and only on a body
    that is a call of "on_device": either the body cannot be decomposed, and
    the failure is that of the decomposition, or it is an annotation whose
    scope differs from the requested one while the result/body pair or the
    two sources of the middle value are both constrained.  In particular the
    check inside [OnDevice] never fires from [MaybeOnDevice]. *)
Theorem MaybeOnDevice_failures
    (e : Expr) (S : SEScope) (r c : bool) (err : ICheckFailure) :
  MaybeOnDevice e S r c = Fatal err →
  IsFullyUnconstrained S = false ∧
  err ≠ OnDeviceUnconstrainedScope ∧
  (GetOnDeviceProps e = Fatal err ∨
   ∃ b s cr cb,
     annotation e b s cr cb ∧ s ≠ S ∧
     ((r = true ∧ cb = true ∧ err = ResultBodyDifferentSEScopes) ∨
      (c = true ∧ cr = true ∧ err = IntermediateDifferentSEScopes))).
Proof.
  intros H.
  destruct (IsFullyUnconstrained S) eqn:HS.
  { by rewrite MaybeOnDevice_unconstrained in H. }
  destruct (device_polymorphic e) eqn:Hp.
  { by rewrite MaybeOnDevice_polymorphic in H. }
  split; [done|].
  destruct (GetOnDeviceProps e) as [props|err0] eqn:He.
  - destruct props as [[b|] s cr cb].
    + assert (Ha : annotation e b s cr cb) by exact He.
      rewrite (MaybeOnDevice_nested e b s cr cb S r c Ha HS) in H.
      case_bool_decide as Hs.
      { by rewrite !andb_false_r in H. }
      rewrite !andb_true_r in H.
      destruct (r && cb) eqn:Hrc.
      * injection H as <-. apply andb_prop in Hrc as [-> ->].
        split; [done|]. right. exists b, s, cr, true.
        split; [done|]. split; [done|]. by left.
      * destruct (c && cr) eqn:Hccr; [|discriminate].
        injection H as <-. apply andb_prop in Hccr as [-> ->].
        split; [done|]. right. exists b, s, true, cb.
        split; [done|]. split; [done|]. by right.
    + apply GetOnDeviceProps_body_Some in He as Hn; [|done].
      injection Hn as -> -> ->.
      rewrite MaybeOnDevice_plain in H; done.
  - rewrite MaybeOnDevice_wraps in H by done. rewrite He in H.
    injection H as ->.
    split; [|by left].
    destruct e as [| | | | |op args attrs ta sp| | | | |]; try discriminate.
    simpl in He. rewrite GetOnDeviceProps_call_cases in He.
    destruct (is_OnDeviceOp op); [|discriminate].
    destruct args as [|b [|b' args]], attrs; by simplify_eq.
Qed.

Lemma MaybeOnDevice_failures_witness :
  IsFullyUnconstrained scope_cpu = false ∧
  IntermediateDifferentSEScopes ≠ OnDeviceUnconstrainedScope ∧
  (GetOnDeviceProps inner_result_only = Fatal IntermediateDifferentSEScopes ∨
   ∃ b s cr cb,
     annotation inner_result_only b s cr cb ∧ s ≠ scope_cpu ∧
     ((false = true ∧ cb = true ∧
       IntermediateDifferentSEScopes = ResultBodyDifferentSEScopes) ∨
      (true = true ∧ cr = true ∧
       IntermediateDifferentSEScopes = IntermediateDifferentSEScopes))).
Proof.
  apply (MaybeOnDevice_failures inner_result_only scope_cpu false true
           IntermediateDifferentSEScopes).
  reflexivity.
Defined.

(** Whatever [MaybeOnDevice] returns is either the body it was given or a
    single-argument call of "on_device" built by [OnDevice]: it carries the
    requested [constrain_result]; its scope is the requested scope when one of
    its flags is set and the unconstrained one otherwise, so the scope of an
    annotation being merged is never kept; its span is that of the wrapped
    expression, which is the body itself (with the requested
    [constrain_body]) or the body of the annotation that was given (with that
    annotation's [constrain_body]). *)
Theorem MaybeOnDevice_result (e : Expr) (S : SEScope) (r c : bool) (e' : Expr) :
  MaybeOnDevice e S r c = OK e' →
  e' = e ∨
  ∃ b cb,
    e' = CallExpr OnDeviceOp [b]
           (OnDeviceAttrs (if r || cb then S else FullyUnconstrained) r cb)
           [] (span_of b) ∧
    IsFullyUnconstrained S = false ∧
    ((b = e ∧ cb = c ∧ plain e) ∨ (∃ s cr, annotation e b s cr cb)).
Proof.
  intros H.
  destruct (IsFullyUnconstrained S) eqn:HS.
  { rewrite MaybeOnDevice_unconstrained in H by done. left. congruence. }
  destruct (device_polymorphic e) eqn:Hp.
  { rewrite MaybeOnDevice_polymorphic in H by done. left. congruence. }
  right.
  destruct (GetOnDeviceProps e) as [[[b|] s cr cb]|err0] eqn:He.
  - assert (Ha : annotation e b s cr cb) by exact He.
    apply (MaybeOnDevice_nested_inv e b s cr cb S r c e' Ha HS) in H as ->.
    exists b, cb. split; [reflexivity|]. split; [done|]. right. eauto.
  - apply GetOnDeviceProps_body_Some in He as Hn; [|done].
    injection Hn as -> -> ->.
    assert (Hplain : plain e) by done.
    rewrite MaybeOnDevice_plain in H by done. injection H as <-.
    exists e, c. split; [reflexivity|]. auto.
  - rewrite MaybeOnDevice_wraps in H by done. by rewrite He in H.
Qed.

Lemma MaybeOnDevice_result_witness :
  on_device_node call_add scope_cpu false false = inner_result_only ∨
  ∃ b cb,
    on_device_node call_add scope_cpu false false
    = CallExpr OnDeviceOp [b]
        (OnDeviceAttrs (if false || cb then scope_cpu else FullyUnconstrained)
                       false cb)
        [] (span_of b) ∧
    IsFullyUnconstrained scope_cpu = false ∧
    ((b = inner_result_only ∧ cb = false ∧ plain inner_result_only) ∨
     (∃ s cr, annotation inner_result_only b s cr cb)).
Proof.
  apply (MaybeOnDevice_result inner_result_only scope_cpu false false).
  reflexivity.
Defined.

(** Two requests in a row on an expression that is neither device
    polymorphic nor an annotation, both with concrete scopes: the pair fails
    exactly when the scopes differ and either the second constrains its
    result while the first constrained its body, or the second constrains its
    body while the first constrained its result; otherwise it amounts to the
    single request with the second scope, the second [constrain_result] and
    the first [constrain_body]. *)
Theorem MaybeOnDevice_twice
    (x : Expr) (S1 : SEScope) (r1 c1 : bool) (S2 : SEScope) (r2 c2 : bool) :
  plain x →
  IsFullyUnconstrained S1 = false → IsFullyUnconstrained S2 = false →
  (e1 ← MaybeOnDevice x S1 r1 c1 ; MaybeOnDevice e1 S2 r2 c2) =
    if r2 && c1 && negb (bool_decide (S1 = S2))
    then Fatal ResultBodyDifferentSEScopes
    else if c2 && r1 && negb (bool_decide (S1 = S2))
    then Fatal IntermediateDifferentSEScopes
    else MaybeOnDevice x S2 r2 c1.
Proof.
  intros Hx H1 H2. rewrite !MaybeOnDevice_plain by done. simpl.
  rewrite (MaybeOnDevice_nested _ _ _ _ _ S2 r2 c2
             (annotation_on_device_node x S1 r1 c1) H2).
  destruct r1, c1, r2, c2; simpl; try reflexivity.
Qed.

Lemma MaybeOnDevice_twice_witness :
  (e1 ← MaybeOnDevice call_add scope_accel true false ;
   MaybeOnDevice e1 scope_cpu false true)
  = Fatal IntermediateDifferentSEScopes.
Proof.
  apply (MaybeOnDevice_twice call_add scope_accel true false
           scope_cpu false true plain_call_add eq_refl eq_refl).
Defined.

(** Asking again with the scope of a successful request never fails, whatever
    the flags of the second request. *)
Theorem MaybeOnDevice_same_scope_again
    (x : Expr) (S : SEScope) (r1 c1 r2 c2 : bool) (e1 : Expr) :
  MaybeOnDevice x S r1 c1 = OK e1 →
  ∃ e2, MaybeOnDevice e1 S r2 c2 = OK e2.
Proof.
  intros H.
  destruct (IsFullyUnconstrained S) eqn:HS.
  { rewrite MaybeOnDevice_unconstrained in H |- * by done. eauto. }
  destruct (device_polymorphic x) eqn:Hp.
  { rewrite MaybeOnDevice_polymorphic in H by done. injection H as <-.
    rewrite MaybeOnDevice_polymorphic by done. eauto. }
  destruct (GetOnDeviceProps x) as [[[b|] s cr cb]|err0] eqn:Hx.
  - assert (Ha : annotation x b s cr cb) by exact Hx.
    apply (MaybeOnDevice_nested_inv x b s cr cb S r1 c1 e1 Ha HS) in H as ->.
    eexists. by apply MaybeOnDevice_on_device_node_same_scope.
  - apply GetOnDeviceProps_body_Some in Hx as Hn; [|done].
    injection Hn as -> -> ->.
    rewrite MaybeOnDevice_plain in H by done. injection H as <-.
    eexists. by apply MaybeOnDevice_on_device_node_same_scope.
  - rewrite MaybeOnDevice_wraps in H by done. by rewrite Hx in H.
Qed.

Lemma MaybeOnDevice_same_scope_again_witness :
  ∃ e2, MaybeOnDevice inner_result_only scope_accel true true = OK e2.
Proof.
  apply (MaybeOnDevice_same_scope_again call_add scope_accel true false
           true true inner_result_only).
  reflexivity.
Defined.

(** ** Any number of requests *)

Lemma MaybeOnDevice_requests_node z S0 r0 cb requests e' :
  Forall (λ q, IsFullyUnconstrained q.1.1 = false) requests →
  MaybeOnDevice_requests (on_device_node z S0 r0 cb) requests = OK e' →
  e' = on_device_node z (default (S0, r0, false) (last requests)).1.1
                        (default (S0, r0, false) (last requests)).1.2 cb.
Proof.
  intros Hall. revert S0 r0.
  induction Hall as [|[[S r] c] rest HS _ IH]; intros S0 r0; simpl.
  - by intros [= <-].
  - destruct (MaybeOnDevice (on_device_node z S0 r0 cb) S r c) as [e1|err]
      eqn:H1; [|discriminate]. simpl.
    apply (MaybeOnDevice_nested_inv _ _ _ _ _ _ _ _ _
             (annotation_on_device_node z S0 r0 cb) HS) in H1 as ->.
    intros H. apply IH in H as ->.
    rewrite last_cons. by destruct (last rest).
Qed.

(** However many requests with concrete scopes follow one another on an
    expression that is neither device polymorphic nor an annotation, a
    successful run leaves a single annotation over that expression: its
    [constrain_result] is that of the last request and its [constrain_body]
    that of the first request; its scope is the scope of the last request
    when one of these two flags is set, and the fully unconstrained scope when
    both are false. *)
Theorem MaybeOnDevice_requests_collapse
    (z : Expr) (S1 : SEScope) (r1 c1 : bool)
    (rest : list (SEScope * bool * bool)) (e' : Expr) :
  plain z → IsFullyUnconstrained S1 = false →
  Forall (λ q, IsFullyUnconstrained q.1.1 = false) rest →
  MaybeOnDevice_requests z ((S1, r1, c1) :: rest) = OK e' →
  annotation e' z
    (if (default (S1, r1, c1) (last rest)).1.2 || c1
     then (default (S1, r1, c1) (last rest)).1.1 else FullyUnconstrained)
    (default (S1, r1, c1) (last rest)).1.2 c1.
Proof.
  intros Hz H1 Hrest. simpl. rewrite MaybeOnDevice_plain by done. simpl.
  intros H. apply MaybeOnDevice_requests_node in H as ->; [|done].
  destruct (last rest) as [[[Sn rn] cn]|]; apply annotation_on_device_node.
Qed.

Lemma MaybeOnDevice_requests_collapse_witness :
  annotation
    (on_device_node call_add scope_cpu true false) call_add scope_cpu true false ∧
  annotation
    (on_device_node call_add scope_cpu false false) call_add
    FullyUnconstrained false false.
Proof.
  split.
  - apply (MaybeOnDevice_requests_collapse call_add scope_accel false false
             [(scope_accel, true, true); (scope_cpu, false, false);
              (scope_cpu, true, false)]
             (on_device_node call_add scope_cpu true false)
             plain_call_add eq_refl).
    + repeat constructor.
    + reflexivity.
  - apply (MaybeOnDevice_requests_collapse call_add scope_accel true false
             [(scope_cpu, false, false)]
             (on_device_node call_add scope_cpu false false)
             plain_call_add eq_refl).
    + repeat constructor.
    + reflexivity.
Defined.

(** ** Attaching and reading function placement *)

(** Whatever is attached is read back: the result scope always, and a
    parameter scope for every index below the arity once the list has as many
    entries as the function has parameters.  [FunctionOnDevice] itself does
    not compare the list with the arity: after attaching a list of another
    length every in-range parameter query fails with the arity mismatch,
    while the result scope is still read. *)
Theorem FunctionOnDevice_accessors
    (f : FunctionNode) (param_se_scopes : list SEScope) (result_se_scope : SEScope) :
  GetFunctionResultSEScope (FunctionOnDevice f param_se_scopes result_se_scope)
  = OK result_se_scope ∧
  (∀ i se_scope,
     length param_se_scopes = length (params f) →
     param_se_scopes !! i = Some se_scope →
     GetFunctionParamSEScope
       (FunctionOnDevice f param_se_scopes result_se_scope) i = OK se_scope) ∧
  (∀ i,
     length param_se_scopes ≠ length (params f) →
     i < length (params f) →
     GetFunctionParamSEScope
       (FunctionOnDevice f param_se_scopes result_se_scope) i
     = Fatal AnnotationArityMismatch).
Proof.
  split; [|split].
  - unfold GetFunctionResultSEScope, GetAttr_SEScope.
    by rewrite lookup_result_FunctionOnDevice.
  - intros i se Hlen Hi.
    unfold GetFunctionParamSEScope, GetAttr_SEScopeArray.
    rewrite params_FunctionOnDevice, lookup_param_FunctionOnDevice.
    apply lookup_lt_Some in Hi as Hlt.
    rewrite bool_decide_eq_true_2 by lia. simpl.
    rewrite bool_decide_eq_true_2 by done. simpl. by rewrite Hi.
  - intros i Hlen Hi.
    unfold GetFunctionParamSEScope, GetAttr_SEScopeArray.
    rewrite params_FunctionOnDevice, lookup_param_FunctionOnDevice.
    rewrite bool_decide_eq_true_2 by done. simpl.
    by rewrite bool_decide_eq_false_2.
Qed.

Lemma FunctionOnDevice_accessors_witness :
  GetFunctionParamSEScope
    (FunctionOnDevice fn_two [scope_accel; scope_cpu] scope_cpu) 0
  = OK scope_accel ∧
  GetFunctionParamSEScope (FunctionOnDevice fn_two [scope_accel] scope_cpu) 1
  = Fatal AnnotationArityMismatch.
Proof.
  split.
  - apply (FunctionOnDevice_accessors fn_two [scope_accel; scope_cpu] scope_cpu);
      reflexivity.
  - apply (FunctionOnDevice_accessors fn_two [scope_accel] scope_cpu);
      simpl; lia.
Defined.

(** Attaching again replaces the whole record: the function obtained is the
    one a single attachment of the second record gives; and an attachment
    leaves the parameters and every attribute under another key as they
    were. *)
Theorem FunctionOnDevice_replaces
    (f : FunctionNode) (ps1 ps2 : list SEScope) (rs1 rs2 : SEScope) :
  FunctionOnDevice (FunctionOnDevice f ps1 rs1) ps2 rs2
  = FunctionOnDevice f ps2 rs2 ∧
  params (FunctionOnDevice f ps1 rs1) = params f ∧
  (∀ key, key ≠ kParamSEScopes → key ≠ kResultSEScope →
          fn_attrs (FunctionOnDevice f ps1 rs1) !! key = fn_attrs f !! key).
Proof.
  split; [|split].
  - destruct f as [p b old sp]. unfold FunctionOnDevice, WithAttrs.
    f_equal. apply map_eq. intros key.
    rewrite !lookup_union.
    destruct (decide (key = kResultSEScope)) as [->|Hr].
    { rewrite !lookup_insert_eq. by destruct (old !! kResultSEScope). }
    rewrite !(lookup_insert_ne _ kResultSEScope) by done.
    destruct (decide (key = kParamSEScopes)) as [->|Hp].
    { rewrite !lookup_insert_eq. by destruct (old !! kParamSEScopes). }
    rewrite !lookup_insert_ne by done. rewrite lookup_empty.
    by destruct (old !! key).
  - apply params_FunctionOnDevice.
  - intros key Hp Hr. destruct f as [p b old sp]. simpl.
    rewrite lookup_union, !lookup_insert_ne, lookup_empty by done.
    by destruct (old !! key).
Qed.

Lemma FunctionOnDevice_replaces_witness :
  fn_attrs (FunctionOnDevice fn_two_mismatch [scope_cpu] scope_cpu) !! "Primitive"
  = fn_attrs fn_two_mismatch !! "Primitive".
Proof.
  by apply (FunctionOnDevice_replaces fn_two_mismatch [scope_cpu] [] scope_cpu
              scope_cpu).
Defined.

Lemma forallb_IsFullyUnconstrained_lookup (l : list SEScope) i s :
  forallb IsFullyUnconstrained l = true → l !! i = Some s →
  s = FullyUnconstrained.
Proof.
  intros Hall Hi. apply list_elem_of_lookup_2, list_elem_of_In in Hi.
  rewrite forallb_forall in Hall. specialize (Hall s Hi). by destruct s.
Qed.

(** On a function that carries no placement yet, [MaybeFunctionOnDevice] is
    indistinguishable from [FunctionOnDevice] through the accessors, although
    it attaches nothing when every scope is unconstrained: the result scope
    reads as the one given, and so does every parameter scope of a list as
    long as the arity. *)
Theorem MaybeFunctionOnDevice_accessors
    (f : FunctionNode) (param_se_scopes : list SEScope) (result_se_scope : SEScope) :
  fn_attrs f !! kParamSEScopes = None →
  fn_attrs f !! kResultSEScope = None →
  GetFunctionResultSEScope
    (MaybeFunctionOnDevice f param_se_scopes result_se_scope)
  = OK result_se_scope ∧
  (∀ i se_scope,
     length param_se_scopes = length (params f) →
     param_se_scopes !! i = Some se_scope →
     GetFunctionParamSEScope
       (MaybeFunctionOnDevice f param_se_scopes result_se_scope) i
     = OK se_scope).
Proof.
  intros Hp Hr. unfold MaybeFunctionOnDevice.
  destruct (forallb IsFullyUnconstrained param_se_scopes
            && IsFullyUnconstrained result_se_scope) eqn:Hall.
  - apply andb_prop in Hall as [Hps Hrs]. split.
    + unfold GetFunctionResultSEScope, GetAttr_SEScope. rewrite Hr. simpl.
      by destruct result_se_scope.
    + intros i se Hlen Hi.
      rewrite (forallb_IsFullyUnconstrained_lookup _ _ _ Hps Hi).
      apply lookup_lt_Some in Hi.
      unfold GetFunctionParamSEScope, GetAttr_SEScopeArray.
      rewrite bool_decide_eq_true_2 by lia. by rewrite Hp.
  - split.
    + unfold GetFunctionResultSEScope, GetAttr_SEScope.
      by rewrite lookup_result_FunctionOnDevice.
    + intros i se Hlen Hi. apply lookup_lt_Some in Hi as Hlt.
      unfold GetFunctionParamSEScope, GetAttr_SEScopeArray.
      rewrite params_FunctionOnDevice, lookup_param_FunctionOnDevice.
      rewrite bool_decide_eq_true_2 by lia. simpl.
      rewrite bool_decide_eq_true_2 by done. simpl. by rewrite Hi.
Qed.

Lemma MaybeFunctionOnDevice_accessors_witness :
  GetFunctionResultSEScope
    (MaybeFunctionOnDevice fn_two [FullyUnconstrained; FullyUnconstrained]
                           FullyUnconstrained)
  = OK FullyUnconstrained ∧
  GetFunctionParamSEScope
    (MaybeFunctionOnDevice fn_two [FullyUnconstrained; scope_cpu]
                           FullyUnconstrained) 1
  = OK scope_cpu.
Proof.
  split.
  - apply (MaybeFunctionOnDevice_accessors fn_two
             [FullyUnconstrained; FullyUnconstrained] FullyUnconstrained);
      reflexivity.
  - apply (MaybeFunctionOnDevice_accessors fn_two
             [FullyUnconstrained; scope_cpu] FullyUnconstrained);
      reflexivity.
Defined.



(** A parameter scope that is read comes from an index below the arity, and
    is either the unconstrained scope of a function without a list, or the
    entry at that index of a list exactly as long as the arity; the indexing
    of the list is therefore never out of bounds. *)
Theorem GetFunctionParamSEScope_read (f : FunctionNode) (i : nat) :
  GetFunctionParamSEScope f i ≠ Fatal ArrayIndexOutOfBounds ∧
  (∀ se_scope,
     GetFunctionParamSEScope f i = OK se_scope →
     i < length (params f) ∧
     ((fn_attrs f !! kParamSEScopes = None ∧ se_scope = FullyUnconstrained) ∨
      ∃ param_se_scopes,
        fn_attrs f !! kParamSEScopes = Some (SEScopeArrayRef param_se_scopes) ∧
        length param_se_scopes = length (params f) ∧
        param_se_scopes !! i = Some se_scope)).
Proof.
  unfold GetFunctionParamSEScope, GetAttr_SEScopeArray.
  case_bool_decide as Hi; simpl; [|by split].
  destruct (fn_attrs f !! kParamSEScopes) as [[s|l|o]|] eqn:Hl; simpl;
    try by split.
  - case_bool_decide as Hlen; simpl; [|by split].
    destruct (l !! i) as [s|] eqn:Hli.
    + split; [done|]. intros ? [= <-]. split; [done|]. right. eauto.
    + apply lookup_ge_None in Hli. lia.
  - split; [done|]. intros ? [= <-]. split; [done|]. by left.
Qed.

Lemma GetFunctionParamSEScope_read_witness :
  1 < length (params (FunctionOnDevice fn_two [scope_accel; scope_cpu] scope_cpu)) ∧
  ((fn_attrs (FunctionOnDevice fn_two [scope_accel; scope_cpu] scope_cpu)
      !! kParamSEScopes = None ∧ scope_cpu = FullyUnconstrained) ∨
   ∃ param_se_scopes,
     fn_attrs (FunctionOnDevice fn_two [scope_accel; scope_cpu] scope_cpu)
       !! kParamSEScopes = Some (SEScopeArrayRef param_se_scopes) ∧
     length param_se_scopes
     = length (params (FunctionOnDevice fn_two [scope_accel; scope_cpu] scope_cpu)) ∧
     param_se_scopes !! 1 = Some scope_cpu).
Proof.
  apply (proj2 (GetFunctionParamSEScope_read
                  (FunctionOnDevice fn_two [scope_accel; scope_cpu] scope_cpu) 1)).
  reflexivity.
Defined.

(** ** The type relation of the NPU identity operator *)

(** The relation assigns a type exactly when it is given three types of which
    the first is a tensor of type uint8 or int8 with at most four dimensions,
    together with attributes of the identity operator; the type assigned, to
    the third slot, is then the type of the first: same shape, same data
    type. *)
Theorem EthosuIdentityRel_assigns
    (types : list RelayType) (num_inputs : Z) (attrs : Attrs)
    (slot assigned : RelayType) :
  EthosuIdentityRel types num_inputs attrs = Assigned slot assigned ↔
  ∃ shape dtype lut,
    types = [TensorType shape dtype; lut; slot] ∧
    assigned = TensorType shape dtype ∧
    is_EthosuIdentityAttrs attrs = true ∧
    (dtype = "uint8" ∨ dtype = "int8") ∧
    length shape ≤ 4.
Proof.
  unfold EthosuIdentityRel. split.
  - destruct types as [|[shape dtype|] [|lut [|res [|]]]]; try discriminate.
    destruct (is_EthosuIdentityAttrs attrs); simpl; [|discriminate].
    destruct (bool_decide (dtype ≠ "uint8") && bool_decide (dtype ≠ "int8"))
      eqn:Hd; [discriminate|].
    destruct (bool_decide (4 < length shape)) eqn:Hlen; [discriminate|].
    apply bool_decide_eq_false in Hlen.
    intros [= <- <-]. exists shape, dtype, lut.
    repeat split; [|lia].
    apply andb_false_iff in Hd as [Hd|Hd];
      apply bool_decide_eq_false in Hd;
      [left | right]; by apply dec_stable.
  - intros (shape & dtype & lut & -> & -> & -> & Hd & Hlen). simpl.
    rewrite (bool_decide_eq_false_2 (4 < length shape)) by lia.
    by destruct Hd as [-> | ->].
Qed.

Lemma EthosuIdentityRel_assigns_witness :
  EthosuIdentityRel [ifm_int8; lut_type; incomplete_type] 2 identity_attrs
  = Assigned incomplete_type ifm_int8.
Proof.
  apply (proj2 (EthosuIdentityRel_assigns [ifm_int8; lut_type; incomplete_type]
                  2 identity_attrs incomplete_type ifm_int8)).
  exists [1; 8; 8; 3]%Z, "int8", lut_type.
  repeat split; [by right | simpl; lia].
Defined.

(** The checks of the relation in their order.  Anything but three types
    fails the size check; a first type that is not a tensor makes the
    relation return false before the attributes are looked at; for a tensor,
    attributes of another operator fail the attribute check before the data
    type is looked at; a data type other than uint8 and int8 is reported
    before the number of dimensions is; more than four dimensions are
    reported last.  The second type and [num_inputs] are never looked at. *)
Theorem EthosuIdentityRel_checks :
  (∀ types num_inputs attrs,
     length types ≠ 3 →
     EthosuIdentityRel types num_inputs attrs = TypesSizeCheckFailed) ∧
  (∀ type_name lut slot num_inputs attrs,
     EthosuIdentityRel [TypeVar type_name; lut; slot] num_inputs attrs
     = RelFalse) ∧
  (∀ shape dtype lut slot num_inputs attrs,
     is_EthosuIdentityAttrs attrs = false →
     EthosuIdentityRel [TensorType shape dtype; lut; slot] num_inputs attrs
     = AttrsCheckFailed) ∧
  (∀ shape dtype lut slot num_inputs attrs,
     is_EthosuIdentityAttrs attrs = true →
     dtype ≠ "uint8" → dtype ≠ "int8" →
     EthosuIdentityRel [TensorType shape dtype; lut; slot] num_inputs attrs
     = EmitFatal (InvalidIfmDtype dtype)) ∧
  (∀ shape dtype lut slot num_inputs attrs,
     is_EthosuIdentityAttrs attrs = true →
     dtype = "uint8" ∨ dtype = "int8" →
     4 < length shape →
     EthosuIdentityRel [TensorType shape dtype; lut; slot] num_inputs attrs
     = EmitFatal (IfmAbove4Dimensions shape)) ∧
  (∀ ifm lut lut' slot num_inputs num_inputs' attrs,
     EthosuIdentityRel [ifm; lut; slot] num_inputs attrs
     = EthosuIdentityRel [ifm; lut'; slot] num_inputs' attrs).
Proof.
  split; [|split; [|split; [|split; [|split]]]].
  - intros types n attrs Hlen.
    destruct types as [|ifm [|lut [|res [|]]]]; try reflexivity.
    by destruct Hlen.
  - reflexivity.
  - intros shape dtype lut slot n attrs Ha. simpl. by rewrite Ha.
  - intros shape dtype lut slot n attrs Ha Hu Hi. simpl. rewrite Ha. simpl.
    by rewrite (bool_decide_eq_true_2 _ Hu), (bool_decide_eq_true_2 _ Hi).
  - intros shape dtype lut slot n attrs Ha Hd Hlen. simpl. rewrite Ha. simpl.
    rewrite (bool_decide_eq_true_2 (4 < length shape)) by done.
    by destruct Hd as [-> | ->].
  - reflexivity.
Qed.

Lemma EthosuIdentityRel_checks_witness :
  EthosuIdentityRel [ifm_int8; lut_type] 2 identity_attrs
  = TypesSizeCheckFailed ∧
  EthosuIdentityRel [ifm_int8; lut_type; incomplete_type] 2
                    (OnDeviceAttrs scope_cpu true true)
  = AttrsCheckFailed ∧
  EthosuIdentityRel [TensorType [1; 2; 3; 4; 5]%Z "float32"; lut_type;
                     incomplete_type] 2 identity_attrs
  = EmitFatal (InvalidIfmDtype "float32") ∧
  EthosuIdentityRel [TensorType [1; 2; 3; 4; 5]%Z "uint8"; lut_type;
                     incomplete_type] 2 identity_attrs
  = EmitFatal (IfmAbove4Dimensions [1; 2; 3; 4; 5]%Z).
Proof.
  destruct EthosuIdentityRel_checks as (Hsize & _ & Hattrs & Hdtype & Hdims & _).
  split; [|split; [|split]].
  - apply Hsize. simpl. lia.
  - by apply Hattrs.
  - by apply Hdtype.
  - apply Hdims; [done | by left | simpl; lia].
Defined.
